(** * pact-js: the GraphQL interaction builder (src/dsl/utils.ts)

    A shallow embedding of [GraphQLInteraction] and of the library calls it
    makes, followed by the properties of the builder.

    - JavaScript strings are sequences of UTF-16 code units ([list N]).
    - JavaScript objects used as records of named fields are finite maps
      ([gmap]) from property names to values.
    - The builder is a mutable object: every method is a state transformer
      over the builder that either returns or throws, and a throw keeps the
      state the method had reached. *)

From Stdlib Require Import String Ascii NArith ZArith List Bool Lia.
From stdpp Require Import gmap list.

Local Open Scope Z_scope.

(** ** JavaScript strings *)

Abbreviation jsstring := (list N) (only parsing).

(** A string literal of the source, as its code units (ASCII literals only). *)
Definition js (s : string) : jsstring :=
  map N_of_ascii (list_ascii_of_string s).

(** The regular-expression class [\s] of ECMAScript: the WhiteSpace and
    LineTerminator code points, all of them single code units. *)
Definition is_space (c : N) : bool :=
  ((9 <=? c) && (c <=? 13) || (c =? 32) || (c =? 160) || (c =? 5760)
   || (8192 <=? c) && (c <=? 8202) || (c =? 8232) || (c =? 8233)
   || (c =? 8239) || (c =? 8287) || (c =? 12288) || (c =? 65279))%N.

(** No whitespace character at the start of the string: a run of whitespace
    that ends before it ends there. *)
Definition no_leading_space (q : jsstring) : bool :=
  match q with
  | [] => true
  | c :: _ => negb (is_space c)
  end.

(** The replacement text of [json]: the source literal ["\\s+"] denotes the
    three characters backslash, s, plus. *)
Definition ws_class : jsstring := js "\s+".

(** [String.prototype.replace(/\s+/g, "\\s+")].  The global replace scans the
    string from the left.  [replace_ws] is the scan looking for the next
    match; where a whitespace character starts a match the replacement is
    emitted and [replace_ws_in_match] lets the greedy [\s+] consume the rest
    of the run.  Characters outside the matches are copied. *)
Fixpoint replace_ws (s : jsstring) : jsstring :=
  match s with
  | [] => []
  | c :: s' =>
      if is_space c then ws_class ++ replace_ws_in_match s'
      else c :: replace_ws s'
  end
with replace_ws_in_match (s : jsstring) : jsstring :=
  match s with
  | [] => []
  | c :: s' =>
      if is_space c then replace_ws_in_match s'
      else c :: replace_ws s'
  end.

(** [Array.prototype.indexOf]: the first index holding the element, or -1. *)
Fixpoint indexOf (l : list jsstring) (x : jsstring) : Z :=
  match l with
  | [] => -1
  | y :: l' =>
      if bool_decide (y = x) then 0
      else let i := indexOf l' x in if i <? 0 then -1 else i + 1
  end.

(** [Array.prototype.join]. *)
Fixpoint join (sep : jsstring) (l : list jsstring) : jsstring :=
  match l with
  | [] => []
  | [x] => x
  | x :: l' => x ++ sep ++ join sep l'
  end.

(** ** JavaScript values *)

(** The values the builder stores and copies.  Numbers are only carried
    around, never computed with; the integer-valued ones are represented. *)
#[warnings="-register-all"]
Inductive value : Type :=
| VUndefined
| VNull
| VBool (b : bool)
| VNum (n : Z)
| VStr (s : jsstring)
| VArr (l : list value)
| VObj (o : gmap jsstring value).

Abbreviation object := (gmap jsstring value) (only parsing).

(** underscore's [extend(destination, source)]: every property of the source
    is copied onto the destination, overwriting the destination's property
    of the same name (a shallow copy: property values are not merged).  A
    source that is [undefined] contributes nothing. *)
Definition extend (destination : object) (source : option object) : object :=
  match source with
  | Some src => src ∪ destination
  | None => destination
  end.

(** The string enum [GraphQLOperations], as the object TypeScript compiles it
    to, its properties in declaration order. *)
Definition GraphQLOperations : list (jsstring * jsstring) :=
  [ (js "query", js "query"); (js "mutation", js "mutation") ].

(** lodash's [keys]: the own property names, in order. *)
Definition keys (o : list (jsstring * jsstring)) : list jsstring := map fst o.

(** JavaScript truthiness of a [string | null] value: [null] and the empty
    string are falsy. *)
Definition truthy (v : option jsstring) : bool :=
  match v with
  | None | Some [] => false
  | Some (_ :: _) => true
  end.

(** [operation.toString()], for the string it is applied to. *)
Definition toString (v : option jsstring) : jsstring := default [] v.

(** ** Errors and the parser *)

(** [new Error(message)]. *)
Record Error : Type := mkError { message : jsstring }.

(** What a call of graphql-tag's [gql] does as far as [withQuery] observes
    it: it returns (the document is dropped) or throws an error carrying a
    message. *)
Inductive parse_outcome : Type :=
| Parsed
| SyntaxError (msg : jsstring).

(** The four errors the builder throws, under the names the specification
    gives them; the messages are the source's. *)
Definition MissingQueryError : Error :=
  mkError (js "You must provide a GraphQL query.").

Definition InvalidQueryError (msg : jsstring) : Error :=
  mkError (js "GraphQL Query is invalid: " ++ msg).

Definition MissingDescriptionError : Error :=
  mkError (js "You must provide a description for the query.").

Definition InvalidOperationError : Error :=
  mkError (js "You must provide a valid HTTP method: "
           ++ join (js ", ") (keys GraphQLOperations) ++ js ".").

(** ** The builder's state *)

(** [InteractionState], the record of the generic builder: an absent
    ([undefined]) field is [None]. *)
Record InteractionState : Type := mkState {
  description : option jsstring;
  stateDescription : option jsstring;
  request : option object;
  response : option object
}.

(** The fields of a [GraphQLInteraction] instance: [state] is inherited from
    [Interaction]; [operation] is a string or [null] ([None]); [query] is
    [undefined] ([None]) until it is assigned. *)
Record GraphQLInteraction : Type := mkBuilder {
  state : InteractionState;
  operation : option jsstring;
  variables : object;
  query : option jsstring
}.

(** [new GraphQLInteraction()]: the field initialisers of the class, over
    the empty state of the base class. *)
Definition new_GraphQLInteraction : GraphQLInteraction :=
  {| state := mkState None None None None;
     operation := None;
     variables := ∅;
     query := None |}.

(** ** Methods as state transformers with exceptions *)

Inductive outcome (A : Type) : Type :=
| Returned (a : A)
| Thrown (e : Error).

Arguments Returned {A} a.
Arguments Thrown {A} e.

(** A method run on [this]: what it returned or threw, and [this] after. *)
Definition method (A : Type) : Type :=
  GraphQLInteraction -> outcome A * GraphQLInteraction.

Definition ret {A} (a : A) : method A := fun this => (Returned a, this).

Definition throw {A} (e : Error) : method A := fun this => (Thrown e, this).

Definition bind {A B} (m : method A) (k : A -> method B) : method B :=
  fun this =>
    match m this with
    | (Returned a, this') => k a this'
    | (Thrown e, this') => (Thrown e, this')
    end.

Definition getThis : method GraphQLInteraction :=
  fun this => (Returned this, this).

Definition assign (f : GraphQLInteraction -> GraphQLInteraction) : method unit :=
  fun this => (Returned tt, f this).

Declare Scope method_scope.
Delimit Scope method_scope with method.
Notation "x <- m ;; k" := (bind m (fun x => k))
  (at level 100, m at next level, right associativity) : method_scope.
Notation "m ;; k" := (bind m (fun _ => k))
  (at level 100, right associativity) : method_scope.

(** Field assignments [this.f = v] and [this.state.f = v]. *)
Definition set_operation (v : option jsstring) (this : GraphQLInteraction) :=
  {| state := state this; operation := v;
     variables := variables this; query := query this |}.

Definition set_variables (v : object) (this : GraphQLInteraction) :=
  {| state := state this; operation := operation this;
     variables := v; query := query this |}.

Definition set_query (v : option jsstring) (this : GraphQLInteraction) :=
  {| state := state this; operation := operation this;
     variables := variables this; query := v |}.

Definition set_state (st : InteractionState) (this : GraphQLInteraction) :=
  {| state := st; operation := operation this;
     variables := variables this; query := query this |}.

Definition set_state_request (r : object) (this : GraphQLInteraction) :=
  set_state {| description := description (state this);
               stateDescription := stateDescription (state this);
               request := Some r;
               response := response (state this) |} this.

(** ** The generic builder, [Interaction] *)

(** Modelled from the spec: the base class [Interaction] (dsl/interaction.ts)
    is not among the sources.  [given(stateDescription)] records the
    provider-state precondition, overwriting any previous value, with no
    constraint on the string. *)
Definition given (stateDescription' : jsstring) : method unit :=
  assign (fun this =>
    set_state {| description := description (state this);
                 stateDescription := Some stateDescription';
                 request := request (state this);
                 response := response (state this) |} this).

(** Modelled from the spec: [uponReceiving(description)] of the absent base
    class records the human-readable description, overwriting any previous
    value. *)
Definition uponReceiving (description' : jsstring) : method unit :=
  assign (fun this =>
    set_state {| description := Some description';
                 stateDescription := stateDescription (state this);
                 request := request (state this);
                 response := response (state this) |} this).

(** Modelled from the spec: [withRequest(requestShape)] of the absent base
    class records the request shape (method, path, headers, query, body: the
    properties the caller gave). *)
Definition withRequest (requestShape : object) : method unit :=
  assign (set_state_request requestShape).

(** Modelled from the spec: [willRespondWith(responseShape)] of the absent
    base class records status, headers and body for the response. *)
Definition willRespondWith (responseShape : object) : method unit :=
  assign (fun this =>
    set_state {| description := description (state this);
                 stateDescription := stateDescription (state this);
                 request := request (state this);
                 response := Some responseShape |} this).

(** ** Matchers *)

(** Modelled from the spec: [regex] of ./matchers is not among the sources.
    The regex matcher constructor is pure and total and returns the
    descriptor [{ generate, matcher: pattern }]. *)
Definition regex (generate matcher : jsstring) : value :=
  VObj {[ js "generate" := VStr generate; js "matcher" := VStr matcher ]}.

(** ** The GraphQL builder *)

Section GraphQLInteraction.

(** graphql-tag's [gql], the parser [withQuery] validates with. *)
Variable gql : jsstring -> parse_outcome.

Local Open Scope method_scope.

(** [withOperation(operation)]. *)
Definition withOperation (operation' : option jsstring) : method unit :=
  if negb (truthy operation')
     || truthy operation'
        && (indexOf (keys GraphQLOperations) (toString operation') <? 0)
  then
    throw (mkError (js "You must provide a valid HTTP method: "
                    ++ join (js ", ") (keys GraphQLOperations) ++ js "."))
  else
    assign (set_operation operation').

(** [withVariables(variables)]. *)
Definition withVariables (variables' : object) : method unit :=
  assign (set_variables variables').

(** [withQuery(query)]; lodash's [isNil] holds of [null] and [undefined],
    the [None] argument. *)
Definition withQuery (query' : option jsstring) : method unit :=
  match query' with
  | None => throw (mkError (js "You must provide a GraphQL query."))
  | Some q =>
      match gql q with
      | SyntaxError msg =>
          throw (mkError (js "GraphQL Query is invalid: " ++ msg))
      | Parsed => assign (set_query (Some q))
      end
  end.

(** The object literal [json] hands to [extend] as the destination. *)
Definition derived_request (this : GraphQLInteraction) (q : jsstring) : object :=
  {[ js "body" :=
       VObj {[ js "operationName" :=
                 match operation this with Some op => VStr op | None => VNull end;
               js "query" := regex q (replace_ws q);
               js "variables" := VObj (variables this) ]};
     js "headers" :=
       VObj {[ js "content-type" := VStr (js "application/json") ]};
     js "method" := VStr (js "POST") ]}.

(** [json()]: the two checks, the assignment to [this.state.request], and
    the return of [this.state]. *)
Definition json : method InteractionState :=
  this <- getThis ;;
  match query this with
  | None => throw (mkError (js "You must provide a GraphQL query."))
  | Some q =>
      match description (state this) with
      | None =>
          throw (mkError (js "You must provide a description for the query."))
      | Some _ =>
          assign (set_state_request
                    (extend (derived_request this q) (request (state this)))) ;;
          this' <- getThis ;;
          ret (state this')
      end
  end.

End GraphQLInteraction.

(** ** Running calls *)

(** [new GraphQLInteraction().m1().m2()...]: the chain [m] run on a fresh
    builder. *)
Definition run {A} (m : method A) : outcome A * GraphQLInteraction :=
  m new_GraphQLInteraction.

(** The calls a test can make on a builder before it finalizes it. *)
Inductive call : Type :=
| Call_given (stateDescription' : jsstring)
| Call_uponReceiving (description' : jsstring)
| Call_withRequest (requestShape : object)
| Call_willRespondWith (responseShape : object)
| Call_withOperation (operation' : option jsstring)
| Call_withVariables (variables' : object)
| Call_withQuery (query' : option jsstring).

Definition perform (gql : jsstring -> parse_outcome) (c : call) : method unit :=
  match c with
  | Call_given s => given s
  | Call_uponReceiving d => uponReceiving d
  | Call_withRequest r => withRequest r
  | Call_willRespondWith r => willRespondWith r
  | Call_withOperation op => withOperation op
  | Call_withVariables v => withVariables v
  | Call_withQuery q => withQuery gql q
  end.

(** The builder after the calls were made on it one after the other, the
    caller going on after a call that threw. *)
Definition after (gql : jsstring -> parse_outcome) (cs : list call)
    (this : GraphQLInteraction) : GraphQLInteraction :=
  fold_left (fun b c => snd (perform gql c b)) cs this.

Definition is_withQuery (c : call) : bool :=
  match c with Call_withQuery _ => true | _ => false end.

Definition is_uponReceiving (c : call) : bool :=
  match c with Call_uponReceiving _ => true | _ => false end.

(** What a run returned, if it returned, and what it threw, if it threw. *)
Definition returned {A} (r : outcome A * GraphQLInteraction) : option A :=
  match fst r with Returned a => Some a | Thrown _ => None end.

Definition thrown {A} (r : outcome A * GraphQLInteraction) : option Error :=
  match fst r with Returned _ => None | Thrown e => Some e end.

(** The request of the record a run of [json] returned. *)
Definition finalized_request (r : outcome InteractionState * GraphQLInteraction)
    : option object :=
  match returned r with Some st => request st | None => None end.

(** A property of the request the generic builder has accumulated,
    [this.state.request[k]]; nothing while there is no request. *)
Definition request_property (this : GraphQLInteraction) (k : jsstring)
    : option value :=
  match request (state this) with
  | Some r => r !! k
  | None => None
  end.

(** Reading a property of an object-valued property: [o.outer.inner]. *)
Definition property2 (o : object) (outer inner : jsstring) : option value :=
  match o !! outer with
  | Some (VObj o') => o' !! inner
  | _ => None
  end.

(** ** A concrete parser *)

(** A small parser to instantiate [gql] with at concrete inputs.  It checks
    the braces of a document only: a document passes when its braces are
    balanced and it opens at least one selection set; the messages are
    those graphql gives at the same places. *)
Fixpoint brace_scan (depth : nat) (opened : bool) (s : jsstring) : parse_outcome :=
  match s with
  | [] =>
      match depth with
      | O => if opened then Parsed
             else SyntaxError (js "Syntax Error: Unexpected <EOF>")
      | S _ => SyntaxError (js "Syntax Error: Expected Name, found <EOF>")
      end
  | c :: s' =>
      if (c =? 123)%N then brace_scan (S depth) true s'
      else if (c =? 125)%N then
        match depth with
        | O => SyntaxError (js "Syntax Error: Unexpected }")
        | S d => brace_scan d opened s'
        end
      else brace_scan depth opened s'
  end.

Definition brace_gql (s : jsstring) : parse_outcome := brace_scan 0 false s.

(** ** Matching a derived pattern *)

(** The pieces of a derived pattern: a character to be matched literally, or
    the class of one or more whitespace characters. *)
Inductive pattern_item : Type :=
| PChar (c : N)
| PSpaces.

(** Modelled from the spec: the matching engine is outside the repository.
    The specification reads a derived pattern as the whitespace class
    [\s+] where the derivation put it and every other character as that
    literal character. *)
Fixpoint read_pattern (p : jsstring) : list pattern_item :=
  match p with
  | [] => []
  | c :: p' =>
      match c, p' with
      | 92%N, 115%N :: 43%N :: p'' => PSpaces :: read_pattern p''
      | _, _ => PChar c :: read_pattern p'
      end
  end.

(** Modelled from the spec: a full match of a string against the pieces of a
    pattern; the whitespace class takes one whitespace character and then
    any number more. *)
Fixpoint accepts_items (items : list pattern_item) (s : jsstring) : bool :=
  match items with
  | [] => match s with [] => true | _ :: _ => false end
  | PChar c :: items' =>
      match s with
      | [] => false
      | x :: s' => (x =? c)%N && accepts_items items' s'
      end
  | PSpaces :: items' =>
      match s with
      | [] => false
      | x :: s' =>
          is_space x &&
          (fix more (t : jsstring) : bool :=
             accepts_items items' t
             || match t with
                | [] => false
                | y :: t' => is_space y && more t'
                end) s'
      end
  end.

(** Modelled from the spec: the pattern [p] accepts [s] as a full match. *)
Definition accepts (p s : jsstring) : bool := accepts_items (read_pattern p) s.

(** A string with its whitespace characters taken out. *)
Definition strip_ws (s : jsstring) : jsstring :=
  filter (fun c => is_space c = false) s.

(** Modelled from the spec: [q'] is a whitespace variant of [q] when it comes
    from [q] by inserting, deleting or replacing runs of whitespace between
    the other characters, that is, when the two agree once their whitespace
    is taken out. *)
Definition ws_variant (q q' : jsstring) : Prop := strip_ws q = strip_ws q'.

(** The specification's wording of the derived pattern: every maximal run
    of one or more whitespace characters is replaced by the whitespace
    class, every other character stays. *)
Inductive RunsReplaced : jsstring -> jsstring -> Prop :=
| RR_end : RunsReplaced [] []
| RR_char c q p :
    is_space c = false ->
    RunsReplaced q p ->
    RunsReplaced (c :: q) (c :: p)
| RR_run r q p :
    r <> [] ->
    forallb is_space r = true ->
    no_leading_space q = true ->
    RunsReplaced q p ->
    RunsReplaced (r ++ q) (ws_class ++ p).

(** A variant of [q] that keeps a non-empty run of whitespace wherever [q]
    has one, and has whitespace nowhere else. *)
Inductive Respaced : jsstring -> jsstring -> Prop :=
| RS_end : Respaced [] []
| RS_char c q q' :
    is_space c = false ->
    Respaced q q' ->
    Respaced (c :: q) (c :: q')
| RS_run r r' q q' :
    r <> [] -> forallb is_space r = true ->
    r' <> [] -> forallb is_space r' = true ->
    no_leading_space q = true ->
    Respaced q q' ->
    Respaced (r ++ q) (r' ++ q').


(** ** Calls by kind *)

Definition is_withOperation (c : call) : bool :=
  match c with Call_withOperation _ => true | _ => false end.

Definition is_withVariables (c : call) : bool :=
  match c with Call_withVariables _ => true | _ => false end.

(** The calls of the three setters [GraphQLInteraction] itself declares. *)
Definition is_graphql_setter (c : call) : bool :=
  is_withOperation c || is_withVariables c || is_withQuery c.

(** The query a call stores: the argument of a [withQuery] that is a string
    the parser accepts; no other call stores one. *)
Definition accepted_query (gql : jsstring -> parse_outcome) (c : call)
    : option jsstring :=
  match c with
  | Call_withQuery (Some q) =>
      match gql q with
      | Parsed => Some q
      | SyntaxError _ => None
      end
  | _ => None
  end.

(** The query stored by the last of the calls that stores one. *)
Fixpoint last_accepted_query (gql : jsstring -> parse_outcome)
    (cs : list call) : option jsstring :=
  match cs with
  | [] => None
  | c :: cs' =>
      match last_accepted_query gql cs' with
      | Some q => Some q
      | None => accepted_query gql c
      end
  end.

(** The three characters of the whitespace class occur in a row in the
    string. *)
Fixpoint contains_ws_class (q : jsstring) : bool :=
  match q with
  | [] => false
  | c :: q' =>
      match c, q' with
      | 92%N, 115%N :: 43%N :: _ => true
      | _, _ => contains_ws_class q'
      end
  end.

(** The number of characters a pattern asks for literally. *)
Fixpoint literal_items (items : list pattern_item) : nat :=
  match items with
  | [] => O
  | PChar _ :: items' => S (literal_items items')
  | PSpaces :: items' => literal_items items'
  end.

(** The three properties of the request [json] derives. *)
Definition derived_keys : gset (list N) :=
  {[ js "body"; js "headers"; js "method" ]}.

(** The string starts with the two characters s and plus. *)
Definition starts_s_plus (p : jsstring) : bool :=
  match p with
  | a :: b :: _ => (a =? 115)%N && (b =? 43)%N
  | _ => false
  end.

(** Case analysis on a code unit down to the bits that tell the ASCII
    characters apart. *)
Ltac N_cases c :=
  destruct c as [|c]; [try reflexivity|];
  do 7 (destruct c as [c|c|]; try reflexivity).

(** * Properties *)

(** ** The whitespace replacement *)

Lemma replace_ws_in_match_nonspace (q : jsstring) :
  no_leading_space q = true ->
  replace_ws_in_match q = replace_ws q.
Proof.
  destruct q as [|c q]; simpl; [reflexivity|].
  intros H. apply negb_true_iff in H. now rewrite H.
Qed.

Lemma replace_ws_in_match_run (r q : jsstring) :
  forallb is_space r = true ->
  no_leading_space q = true ->
  replace_ws_in_match (r ++ q) = replace_ws q.
Proof.
  intros Hr Hq. induction r as [|c r IH]; simpl in *.
  - now apply replace_ws_in_match_nonspace.
  - apply andb_true_iff in Hr as [Hc Hr]. rewrite Hc. now apply IH.
Qed.

Lemma replace_ws_run (r q : jsstring) :
  r <> [] ->
  forallb is_space r = true ->
  no_leading_space q = true ->
  replace_ws (r ++ q) = ws_class ++ replace_ws q.
Proof.
  intros Hne Hr Hq. destruct r as [|c r]; [congruence|].
  simpl in Hr. apply andb_true_iff in Hr as [Hc Hr].
  change (replace_ws ((c :: r) ++ q))
    with (if is_space c then ws_class ++ replace_ws_in_match (r ++ q)
          else c :: replace_ws (r ++ q)).
  rewrite Hc. f_equal. now apply replace_ws_in_match_run.
Qed.

Lemma replace_ws_char (c : N) (q : jsstring) :
  is_space c = false -> replace_ws (c :: q) = c :: replace_ws q.
Proof. intros H. simpl. now rewrite H. Qed.

(** The scan computes what the wording describes, whether it is looking
    for a match or inside one. *)
Lemma replace_ws_RunsReplaced (q : jsstring) :
  RunsReplaced q (replace_ws q) /\
  (forall r, r <> [] -> forallb is_space r = true ->
             RunsReplaced (r ++ q) (ws_class ++ replace_ws_in_match q)).
Proof.
  induction q as [|c q [IH1 IH2]].
  - split; [constructor|].
    intros r Hne Hr. apply RR_run; auto. constructor.
  - destruct (is_space c) eqn:Hc.
    + split.
      * simpl. rewrite Hc. apply (IH2 [c]); [discriminate|].
        simpl. now rewrite Hc.
      * intros r Hne Hr. simpl. rewrite Hc.
        replace (r ++ c :: q) with ((r ++ [c]) ++ q)
          by (rewrite <- app_assoc; reflexivity).
        apply IH2.
        -- destruct r; discriminate.
        -- rewrite forallb_app, Hr. simpl. now rewrite Hc.
    + assert (Hcq : RunsReplaced (c :: q) (c :: replace_ws q))
        by (now constructor).
      split.
      * simpl. now rewrite Hc.
      * intros r Hne Hr. simpl. rewrite Hc.
        apply RR_run; auto. simpl. now rewrite Hc.
Qed.

(** The wording determines the pattern. *)
Lemma RunsReplaced_unique (q p : jsstring) :
  RunsReplaced q p -> p = replace_ws q.
Proof.
  induction 1 as [|c q p Hc _ IH|r q p Hne Hr Hq _ IH].
  - reflexivity.
  - rewrite replace_ws_char by assumption. now f_equal.
  - rewrite replace_ws_run by assumption. now f_equal.
Qed.

(** ** What [json] does, case by case *)

Lemma json_unfold (this : GraphQLInteraction) :
  json this =
  match query this with
  | None => (Thrown MissingQueryError, this)
  | Some q =>
      match description (state this) with
      | None => (Thrown MissingDescriptionError, this)
      | Some _ =>
          let this' :=
            set_state_request
              (extend (derived_request this q) (request (state this))) this in
          (Returned (state this'), this')
      end
  end.
Proof.
  destruct this as [[d s r p] op v [q|]]; [|reflexivity].
  destruct d; reflexivity.
Qed.

Lemma json_returns (this this' : GraphQLInteraction) (st : InteractionState) :
  json this = (Returned st, this') ->
  exists q d,
    query this = Some q /\ description (state this) = Some d /\
    this' = set_state_request
              (extend (derived_request this q) (request (state this))) this /\
    st = state this'.
Proof.
  rewrite json_unfold.
  destruct (query this) as [q|]; [|discriminate].
  destruct (description (state this)) as [d|] eqn:Hd; [|discriminate].
  cbv zeta. intros H. injection H as <- <-. exists q, d. auto.
Qed.

Lemma lookup_extend (dst : object) (src : option object) (k : jsstring) :
  extend dst src !! k =
  match src with
  | Some s => match s !! k with Some v => Some v | None => dst !! k end
  | None => dst !! k
  end.
Proof.
  destruct src as [s|]; simpl; [|reflexivity].
  rewrite lookup_union. destruct (s !! k), (dst !! k); reflexivity.
Qed.

Lemma derived_request_body (this : GraphQLInteraction) (q : jsstring) :
  derived_request this q !! js "body" =
  Some (VObj {[ js "operationName" :=
                  match operation this with Some op => VStr op | None => VNull end;
                js "query" := regex q (replace_ws q);
                js "variables" := VObj (variables this) ]}).
Proof. reflexivity. Qed.

Lemma derived_request_headers (this : GraphQLInteraction) (q : jsstring) :
  derived_request this q !! js "headers" =
  Some (VObj {[ js "content-type" := VStr (js "application/json") ]}).
Proof. reflexivity. Qed.

Lemma derived_request_method (this : GraphQLInteraction) (q : jsstring) :
  derived_request this q !! js "method" = Some (VStr (js "POST")).
Proof. reflexivity. Qed.

Lemma json_request (this this' : GraphQLInteraction) (st : InteractionState) :
  json this = (Returned st, this') ->
  exists q r,
    query this = Some q /\ request st = Some r /\
    forall k,
      r !! k = match request_property this k with
               | Some v => Some v
               | None => derived_request this q !! k
               end.
Proof.
  intros H. apply json_returns in H as (q & d & Hq & _ & -> & ->).
  exists q, (extend (derived_request this q) (request (state this))).
  split; [assumption|]. split; [reflexivity|].
  intros k. rewrite lookup_extend. unfold request_property.
  destruct (request (state this)) as [r|]; reflexivity.
Qed.

Lemma finalized_request_json
    (this this' : GraphQLInteraction) (st : InteractionState)
    (r : gmap (list N) value) :
  json this = (Returned st, this') ->
  request st = Some r ->
  finalized_request (json this) = Some r.
Proof.
  intros Hj Hr. unfold finalized_request, returned. now rewrite Hj.
Qed.

Lemma withQuery_stores (gql : jsstring -> parse_outcome)
    (this this' : GraphQLInteraction) (q : option jsstring) :
  withQuery gql q this = (Returned tt, this') ->
  exists s, q = Some s /\ gql s = Parsed /\ this' = set_query (Some s) this.
Proof.
  unfold withQuery. destruct q as [s|]; [|discriminate].
  destruct (gql s) eqn:Hg; [|discriminate].
  intros H. injection H as <-. eauto.
Qed.

(** ** Query-matcher derivation *)

(** C4, as the code has it.  For a builder holding the query string [q],
    the descriptor [json]
    places in the query field of the request body it builds has [generate]
    equal to [q] itself and [matcher] equal to the string [m] that is [q]
    with every maximal run of whitespace replaced by the whitespace class
    and every other character kept ([m] is the only such string); and
    whenever [json] returns on a builder whose accumulated request has no
    body of its own, that descriptor is the query field of the finalized
    request body. *)
Theorem query_matcher_derivation
    (this : GraphQLInteraction) (q : jsstring) :
  query this = Some q ->
  exists d m,
    property2 (derived_request this q) (js "body") (js "query") = Some (VObj d) /\
    d !! js "generate" = Some (VStr q) /\
    d !! js "matcher" = Some (VStr m) /\
    VObj d = regex q m /\
    RunsReplaced q m /\
    (forall m', RunsReplaced q m' -> m' = m) /\
    (forall st this',
        json this = (Returned st, this') ->
        request_property this (js "body") = None ->
        exists r, request st = Some r /\
                  property2 r (js "body") (js "query") = Some (VObj d)).
Proof.
  intros Hq.
  exists {[ js "generate" := VStr q; js "matcher" := VStr (replace_ws q) ]},
         (replace_ws q).
  split; [reflexivity|]. split; [reflexivity|]. split; [reflexivity|].
  split; [reflexivity|].
  split; [apply replace_ws_RunsReplaced|].
  split; [intros m'; apply RunsReplaced_unique|].
  intros st this' Hj Hb.
  apply json_request in Hj as (q' & r & Hq' & Hr & Hk).
  rewrite Hq in Hq'. injection Hq' as <-.
  exists r. split; [assumption|].
  unfold property2. rewrite Hk, Hb. reflexivity.
Qed.

(** The derivation at the query of the source's documentation, through the
    calls of a test. *)
Lemma query_matcher_derivation_witness :
  let q := js "{ Category(id:7) { id } }" in
  let this :=
    after brace_gql
      [Call_uponReceiving (js "a request for a category");
       Call_withQuery (Some q)]
      new_GraphQLInteraction in
  exists d r,
    finalized_request (json this) = Some r /\
    property2 r (js "body") (js "query") = Some (VObj d) /\
    d !! js "generate" = Some (VStr q) /\
    d !! js "matcher" = Some (VStr (js "{\s+Category(id:7)\s+{\s+id\s+}\s+}")).
Proof.
  intros q this.
  destruct (query_matcher_derivation this q eq_refl)
    as (d & m & _ & Hg & Hm & _ & Hr & _ & Hfin).
  destruct (Hfin _ _ eq_refl eq_refl) as (r & Hreq & Hd).
  exists d, r. split.
  - exact (finalized_request_json this _ _ r eq_refl Hreq).
  - split; [exact Hd|]. split; [exact Hg|].
    apply RunsReplaced_unique in Hr. rewrite Hm, Hr. reflexivity.
Defined.

(** ** Merge precedence *)

(** C1, as the code has it.  When [json] returns, every property of the
    request the generic builder accumulated is a property of the finalized
    request unchanged, and every property the accumulated request lacks is
    taken from the request [json] derives.  The merge is by whole
    properties: the finalized headers are the caller's headers object as it
    is when the caller gave one (for [{ "X-Custom": "1" }] they hold
    X-Custom and no content-type), and are
    [{ "content-type": "application/json" }] only when the caller gave no
    headers; the method is the caller's when the caller gave one, and POST
    otherwise. *)
Theorem json_merge_precedence
    (this this' : GraphQLInteraction) (st : InteractionState) :
  json this = (Returned st, this') ->
  exists q r,
    query this = Some q /\ request st = Some r /\
    (forall k v, request_property this k = Some v -> r !! k = Some v) /\
    (forall k, request_property this k = None ->
               r !! k = derived_request this q !! k) /\
    r !! js "headers" =
      Some (default (VObj {[ js "content-type" := VStr (js "application/json") ]})
                    (request_property this (js "headers"))) /\
    r !! js "method" =
      Some (default (VStr (js "POST")) (request_property this (js "method"))).
Proof.
  intros H. apply json_request in H as (q & r & Hq & Hr & Hk).
  exists q, r. split; [assumption|]. split; [assumption|].
  split; [|split; [|split]].
  - intros k v Hv. now rewrite Hk, Hv.
  - intros k Hn. now rewrite Hk, Hn.
  - rewrite Hk. destruct (request_property this (js "headers")); reflexivity.
  - rewrite Hk. destruct (request_property this (js "method")); reflexivity.
Qed.

(** The scenario of C1 run on the code: after
    [withRequest({ headers: { "X-Custom": "1" } })] the finalized headers
    hold X-Custom and no content-type; the method is POST. *)
Lemma json_merge_drops_content_type :
  exists r,
    finalized_request
      (run (uponReceiving (js "a request for projects") ;;
            withRequest
              {[ js "headers" := VObj {[ js "X-Custom" := VStr (js "1") ]} ]} ;;
            withQuery brace_gql (Some (js "{ Category(id:7) { id name } }")) ;;
            json)%method) = Some r /\
    property2 r (js "headers") (js "X-Custom") = Some (VStr (js "1")) /\
    property2 r (js "headers") (js "content-type") = None /\
    r !! js "method" = Some (VStr (js "POST")).
Proof.
  eexists. split; [vm_compute; reflexivity|].
  repeat split; vm_compute; reflexivity.
Qed.

Lemma json_merge_precedence_witness :
  let caller : gmap (list N) value :=
    {[ js "headers" := VObj {[ js "X-Custom" := VStr (js "1") ]};
       js "method" := VStr (js "GET") ]} in
  let this :=
    after brace_gql
      [Call_uponReceiving (js "a request for projects");
       Call_withRequest caller;
       Call_withQuery (Some (js "{ Category(id:7) { id name } }"))]
      new_GraphQLInteraction in
  exists r,
    finalized_request (json this) = Some r /\
    r !! js "headers" = Some (VObj {[ js "X-Custom" := VStr (js "1") ]}) /\
    r !! js "method" = Some (VStr (js "GET")) /\
    is_Some (r !! js "body").
Proof.
  intros caller this.
  destruct (json_merge_precedence this _ _ eq_refl)
    as (q & r & Hq & Hr & Hcaller & Hgap & Hh & Hm).
  exists r. split; [|split; [|split]].
  - exact (finalized_request_json this _ _ r eq_refl Hr).
  - exact Hh.
  - exact Hm.
  - rewrite (Hgap (js "body") eq_refl). injection Hq as <-.
    rewrite derived_request_body. eexists. reflexivity.
Defined.

(** ** What the calls leave alone *)

Section Calls.

Variable gql : jsstring -> parse_outcome.

Local Open Scope method_scope.

Lemma withQuery_nil (this : GraphQLInteraction) :
  withQuery gql None this = (Thrown MissingQueryError, this).
Proof. reflexivity. Qed.

Lemma withQuery_unfold (q : jsstring) (this : GraphQLInteraction) :
  withQuery gql (Some q) this =
  match gql q with
  | Parsed => (Returned tt, set_query (Some q) this)
  | SyntaxError msg => (Thrown (InvalidQueryError msg), this)
  end.
Proof. unfold withQuery. destruct (gql q); reflexivity. Qed.

Lemma withOperation_cases (op : option jsstring) (this : GraphQLInteraction) :
  withOperation op this = (Returned tt, set_operation op this) \/
  withOperation op this = (Thrown InvalidOperationError, this).
Proof.
  unfold withOperation.
  destruct (negb (truthy op) || _); [right|left]; reflexivity.
Qed.

Lemma perform_keeps_query (c : call) (this : GraphQLInteraction) :
  is_withQuery c = false ->
  query (snd (perform gql c this)) = query this.
Proof.
  destruct c; try discriminate; intros _; try reflexivity.
  simpl. destruct (withOperation_cases operation' this) as [-> | ->];
    reflexivity.
Qed.

Lemma perform_keeps_description (c : call) (this : GraphQLInteraction) :
  is_uponReceiving c = false ->
  description (state (snd (perform gql c this))) = description (state this).
Proof.
  destruct c; try discriminate; intros _; try reflexivity.
  - simpl. destruct (withOperation_cases operation' this) as [-> | ->];
      reflexivity.
  - simpl. destruct query' as [q|]; [|reflexivity].
    rewrite withQuery_unfold. destruct (gql q); reflexivity.
Qed.

Lemma after_keeps_query (cs : list call) (this : GraphQLInteraction) :
  existsb is_withQuery cs = false ->
  query (after gql cs this) = query this.
Proof.
  revert this. induction cs as [|c cs IH]; intros this H; [reflexivity|].
  simpl in H. apply orb_false_iff in H as [Hc Hcs].
  unfold after in *. simpl. rewrite IH by assumption.
  now apply perform_keeps_query.
Qed.

Lemma after_keeps_description (cs : list call) (this : GraphQLInteraction) :
  existsb is_uponReceiving cs = false ->
  description (state (after gql cs this)) = description (state this).
Proof.
  revert this. induction cs as [|c cs IH]; intros this H; [reflexivity|].
  simpl in H. apply orb_false_iff in H as [Hc Hcs].
  unfold after in *. simpl. rewrite IH by assumption.
  now apply perform_keeps_description.
Qed.

(** With the empty string for a query, neither [withQuery] nor a [json]
    after it throws the missing-query error, whatever the parser does. *)
Lemma empty_query_not_missing (this : GraphQLInteraction) :
  thrown ((withQuery gql (Some []) ;; json) this) <> Some MissingQueryError.
Proof.
  unfold bind. rewrite withQuery_unfold. destruct (gql []) as [|msg].
  - rewrite json_unfold. simpl.
    destruct (description (state this)); unfold thrown; simpl;
      [discriminate|].
    intros H. vm_compute in H. discriminate H.
  - unfold thrown. simpl. intros H. cbv in H. discriminate H.
Qed.

(** ** Missing description *)

(** C8, as the code has it.  On a builder on which [uponReceiving] was never
    called [json] throws: the missing-description error when a query is
    stored, and, the query being checked first, the missing-query error
    when none is.  The builder is left as it was. *)
Theorem missing_description_failure (cs : list call) :
  existsb is_uponReceiving cs = false ->
  let this := after gql cs new_GraphQLInteraction in
  json this =
  (Thrown (match query this with
           | Some _ => MissingDescriptionError
           | None => MissingQueryError
           end), this).
Proof.
  intros H this. rewrite json_unfold.
  unfold this at 2. rewrite (after_keeps_description cs _ H). simpl.
  destruct (query this); reflexivity.
Qed.

(** ** Invalid query *)

(** C7.  When the parser fails on the string given to [withQuery], the call
    itself throws the invalid-query error, whose message is the fixed
    prefix followed by the parser's message; the builder is left as it was,
    and nothing chained after the call (a [json], say) is run. *)
Theorem invalid_query_immediate
    (q msg : jsstring) (this : GraphQLInteraction) :
  gql q = SyntaxError msg ->
  withQuery gql (Some q) this = (Thrown (InvalidQueryError msg), this) /\
  message (InvalidQueryError msg) = js "GraphQL Query is invalid: " ++ msg /\
  forall (A : Type) (k : method A),
    (withQuery gql (Some q) ;; k) this = (Thrown (InvalidQueryError msg), this).
Proof.
  intros H.
  assert (E : withQuery gql (Some q) this = (Thrown (InvalidQueryError msg), this))
    by (rewrite withQuery_unfold, H; reflexivity).
  split; [exact E|]. split; [reflexivity|].
  intros A k. unfold bind. now rewrite E.
Qed.

(** ** Error atomicity *)

(** C9.  A [withOperation] or [withQuery] that throws leaves the builder
    exactly as it was: the stored operation, query and variables and the
    state of the generic builder. *)
Theorem mutators_atomic (this this' : GraphQLInteraction) (e : Error) :
  (forall op, withOperation op this = (Thrown e, this') -> this' = this) /\
  (forall q, withQuery gql q this = (Thrown e, this') -> this' = this).
Proof.
  split.
  - intros op H.
    destruct (withOperation_cases op this) as [E|E]; rewrite E in H;
      [discriminate|]. now injection H.
  - intros [q|] H.
    + rewrite withQuery_unfold in H. destruct (gql q); [discriminate|].
      now injection H.
    + rewrite withQuery_nil in H. now injection H.
Qed.

(** ** Frame of finalization *)

(** C10.  When [json] returns, the record it returns is the state of the
    builder with only the request replaced: description, provider state and
    response are the stored ones; and the builder's operation, variables
    and query are untouched. *)
Theorem json_frame (this this' : GraphQLInteraction) (st : InteractionState) :
  json this = (Returned st, this') ->
  description st = description (state this) /\
  stateDescription st = stateDescription (state this) /\
  response st = response (state this) /\
  state this' = st /\
  operation this' = operation this /\
  variables this' = variables this /\
  query this' = query this.
Proof.
  intros H. apply json_returns in H as (q & d & _ & _ & -> & ->).
  repeat split.
Qed.

End Calls.

(** ** The operation *)

Lemma withOperation_valid (v : jsstring) (this : GraphQLInteraction) :
  In v (keys GraphQLOperations) ->
  withOperation (Some v) this = (Returned tt, set_operation (Some v) this).
Proof.
  intros [<- | [<- | []]]; reflexivity.
Qed.

Lemma withOperation_invalid (op : option jsstring) (this : GraphQLInteraction) :
  ~ In op (map Some (keys GraphQLOperations)) ->
  withOperation op this = (Thrown InvalidOperationError, this).
Proof.
  intros Hop. destruct op as [[|c s]|]; try reflexivity.
  unfold withOperation.
  replace (indexOf (keys GraphQLOperations) (toString (Some (c :: s))) <? 0)
    with true; [reflexivity|].
  symmetry. unfold keys, GraphQLOperations, toString, indexOf. simpl map.
  cbn [default id]. repeat case_bool_decide; try reflexivity;
    exfalso; apply Hop; simpl;
    match goal with E : _ = c :: s |- _ => rewrite <- E end; auto.
Qed.

(** C6, as the code has it.  [withOperation] accepts the two operation
    kinds, [query] and [mutation], and stores the value, the last call
    winning; a [json] that returns on a builder whose accumulated request
    has no body of its own puts the stored value in the body's
    operationName.  Every other argument ([null], the empty string, any
    other string) is rejected, the builder left as it was, with an error
    whose message lists the valid kinds, [query, mutation]. *)
Theorem withOperation_accepts_and_rejects (this : GraphQLInteraction) :
  (forall v, In v (keys GraphQLOperations) ->
     withOperation (Some v) this = (Returned tt, set_operation (Some v) this) /\
     operation (set_operation (Some v) this) = Some v) /\
  (forall v w, In v (keys GraphQLOperations) -> In w (keys GraphQLOperations) ->
     operation (snd ((withOperation (Some v) ;; withOperation (Some w))%method this))
     = Some w) /\
  (forall v st this',
     operation this = Some v ->
     json this = (Returned st, this') ->
     request_property this (js "body") = None ->
     exists r, request st = Some r /\
               property2 r (js "body") (js "operationName") = Some (VStr v)) /\
  (forall op, ~ In op (map Some (keys GraphQLOperations)) ->
     withOperation op this = (Thrown InvalidOperationError, this)) /\
  keys GraphQLOperations = [js "query"; js "mutation"] /\
  message InvalidOperationError
  = js "You must provide a valid HTTP method: " ++ js "query, mutation" ++ js ".".
Proof.
  split; [|split; [|split; [|split; [|split]]]].
  - intros v Hv. split; [now apply withOperation_valid|reflexivity].
  - intros v w Hv Hw. unfold bind.
    rewrite (withOperation_valid v this Hv).
    rewrite (withOperation_valid w _ Hw). reflexivity.
  - intros v st this' Hop Hj Hb.
    apply json_request in Hj as (q & r & Hq & Hr & Hk).
    exists r. split; [assumption|].
    unfold property2. rewrite Hk, Hb, derived_request_body, Hop. reflexivity.
  - intros op. apply withOperation_invalid.
  - reflexivity.
  - reflexivity.
Qed.

(** C6 as stated fails where the caller gave the request a body: the
    finalized body is the caller's, and has no operationName. *)
Lemma caller_body_hides_operation :
  exists r,
    finalized_request
      (run (withRequest {[ js "body" := VObj ∅ ]} ;;
            withOperation (Some (js "query")) ;;
            uponReceiving (js "a request for projects") ;;
            withQuery brace_gql (Some (js "{ Category(id:7) { id name } }")) ;;
            json)%method) = Some r /\
    r !! js "body" = Some (VObj ∅) /\
    property2 r (js "body") (js "operationName") = None.
Proof.
  eexists. split; [vm_compute; reflexivity|].
  split; vm_compute; reflexivity.
Qed.

Lemma withOperation_accepts_and_rejects_witness :
  let this :=
    after brace_gql
      [Call_uponReceiving (js "a request for projects");
       Call_withOperation (Some (js "query"));
       Call_withOperation (Some (js "mutation"));
       Call_withQuery (Some (js "{ Category(id:7) { id name } }"))]
      new_GraphQLInteraction in
  (exists r,
     finalized_request (json this) = Some r /\
     property2 r (js "body") (js "operationName") = Some (VStr (js "mutation"))) /\
  withOperation (Some (js "subscription")) this
  = (Thrown InvalidOperationError, this) /\
  withOperation None this = (Thrown InvalidOperationError, this).
Proof.
  intros this.
  destruct (withOperation_accepts_and_rejects this)
    as (_ & _ & Hjson & Hrej & _ & _).
  split; [|split].
  - destruct (Hjson (js "mutation") _ _ eq_refl eq_refl eq_refl)
      as (r & Hr & Hop).
    exists r. split; [|exact Hop].
    exact (finalized_request_json this _ _ r eq_refl Hr).
  - apply Hrej. simpl. intros [H | [H | []]]; discriminate H.
  - apply Hrej. simpl. intros [H | [H | []]]; discriminate H.
Defined.

(** ** Whitespace tolerance of the derived matcher *)

Lemma read_pattern_ws_class (p : jsstring) :
  read_pattern (ws_class ++ p) = PSpaces :: read_pattern p.
Proof. reflexivity. Qed.

Lemma read_pattern_char (c : N) (p : jsstring) :
  c <> 92%N -> read_pattern (c :: p) = PChar c :: read_pattern p.
Proof.
  intros Hc. cbn [read_pattern].
  destruct c as [|c]; [reflexivity|].
  do 7 (destruct c as [c|c|]; try reflexivity). congruence.
Qed.

Lemma accepts_items_more (items : list pattern_item) (r s : jsstring) :
  forallb is_space r = true ->
  accepts_items items s = true ->
  (fix more (t : jsstring) : bool :=
     accepts_items items t
     || match t with
        | [] => false
        | y :: t' => is_space y && more t'
        end) (r ++ s) = true.
Proof.
  intros Hr Hs. induction r as [|c r IH]; simpl in *.
  - destruct s; rewrite Hs; reflexivity.
  - apply andb_true_iff in Hr as [Hc Hr].
    rewrite Hc, (IH Hr). simpl. apply orb_true_r.
Qed.

Lemma accepts_items_spaces (items : list pattern_item) (r s : jsstring) :
  r <> [] ->
  forallb is_space r = true ->
  accepts_items items s = true ->
  accepts_items (PSpaces :: items) (r ++ s) = true.
Proof.
  intros Hne Hr Hs. destruct r as [|c r]; [congruence|].
  simpl in Hr. apply andb_true_iff in Hr as [Hc Hr].
  cbn [accepts_items app]. rewrite Hc. simpl.
  now apply accepts_items_more.
Qed.

(** What the derived matcher does tolerate: a query without backslashes is
    accepted by its own pattern, and so is every variant that keeps a
    non-empty run of whitespace wherever the query has one and has
    whitespace nowhere else. *)
Lemma derived_pattern_accepts_respaced (q q' : jsstring) :
  ~ In 92%N q ->
  Respaced q q' ->
  accepts (replace_ws q) q' = true.
Proof.
  intros Hb H. unfold accepts.
  induction H as [|c q q' Hc _ IH|r r' q q' Hne Hr Hne' Hr' Hq _ IH].
  - reflexivity.
  - rewrite replace_ws_char by assumption.
    rewrite read_pattern_char by (intros ->; apply Hb; now left).
    cbn [accepts_items]. rewrite N.eqb_refl. simpl.
    apply IH. intros Hin. apply Hb. now right.
  - rewrite replace_ws_run by assumption.
    rewrite read_pattern_ws_class.
    apply accepts_items_spaces; try assumption.
    apply IH. intros Hin. apply Hb. apply in_or_app. now right.
Qed.

(** A variant with its line breaks and indentation changed. *)
Lemma derived_pattern_accepts_respaced_example :
  accepts (replace_ws (js "{ id }"))
          (js "{" ++ [10; 32; 32]%N ++ js "id" ++ [10]%N ++ js "}") = true.
Proof.
  apply derived_pattern_accepts_respaced.
  - vm_compute. intuition discriminate.
  - apply RS_char; [reflexivity|].
    apply (RS_run [32]%N [10; 32; 32]%N); try reflexivity; try discriminate.
    do 2 (apply RS_char; [reflexivity|]).
    apply (RS_run [32]%N [10]%N); try reflexivity; try discriminate.
    apply RS_char; [reflexivity|]. apply RS_end.
Defined.

(** C2 on the code, at the query of the specification's example.  The
    matcher [json] stores for ["{ Category(id:7) { id } }"] accepts the
    query and the variant with line breaks of the specification, but it
    rejects the whitespace variant that drops the blanks inside the inner
    braces, and the one that puts blanks inside the parentheses: a run of
    whitespace of the query must be matched by at least one whitespace
    character, and none is accepted where the query has none. *)
Theorem derived_matcher_rejects_variants :
  let q := js "{ Category(id:7) { id } }" in
  let m := js "{\s+Category(id:7)\s+{\s+id\s+}\s+}" in
  exists r,
    finalized_request
      (run (uponReceiving (js "a request for a category") ;;
            withQuery brace_gql (Some q) ;;
            json)%method) = Some r /\
    property2 r (js "body") (js "query") = Some (regex q m) /\
    accepts m q = true /\
    accepts m (js "{ Category(id:7) {" ++ [10; 32; 32]%N ++ js "id"
               ++ [10]%N ++ js "} }") = true /\
    ws_variant q (js "{ Category(id:7) {id} }") /\
    accepts m (js "{ Category(id:7) {id} }") = false /\
    ws_variant q (js "{ Category( id:7 ) { id } }") /\
    accepts m (js "{ Category( id:7 ) { id } }") = false.
Proof.
  intros q m. eexists. split; [vm_compute; reflexivity|].
  repeat split; vm_compute; reflexivity.
Qed.

(** ** End to end *)

Section EndToEnd.

Variable gql : jsstring -> parse_outcome.

Local Open Scope method_scope.

(** C5 on the code.  With a parser that accepts the query, the chain of the
    scenario returns a record whose request has method POST, the header
    content-type: application/json, and a body holding operationName
    [null], the empty variables and, in its query field, the descriptor
    whose [generate] is the query as given and whose [matcher] is the
    derived pattern.  The pattern accepts the query; it rejects the
    whitespace variant of the query written without blanks around the
    braces. *)
Theorem end_to_end_finalization :
  let q := js "{ Category(id:7) { id name } }" in
  let m := js "{\s+Category(id:7)\s+{\s+id\s+name\s+}\s+}" in
  gql q = Parsed ->
  exists r d,
    finalized_request
      (run (uponReceiving (js "a request for projects") ;;
            given (js "i have a list of projects") ;;
            withQuery gql (Some q) ;;
            withVariables ∅ ;;
            json)) = Some r /\
    r !! js "method" = Some (VStr (js "POST")) /\
    property2 r (js "headers") (js "content-type")
    = Some (VStr (js "application/json")) /\
    property2 r (js "body") (js "operationName") = Some VNull /\
    property2 r (js "body") (js "variables") = Some (VObj ∅) /\
    property2 r (js "body") (js "query") = Some (VObj d) /\
    d !! js "generate" = Some (VStr q) /\
    d !! js "matcher" = Some (VStr m) /\
    accepts m q = true /\
    ws_variant q (js "{Category(id:7){id name}}") /\
    accepts m (js "{Category(id:7){id name}}") = false.
Proof.
  intros q m Hq.
  exists (derived_request
            (set_variables ∅
               (set_query (Some q)
                  (after gql [Call_uponReceiving (js "a request for projects");
                              Call_given (js "i have a list of projects")]
                         new_GraphQLInteraction))) q),
         {[ js "generate" := VStr q; js "matcher" := VStr m ]}.
  split.
  - unfold run, bind.
    change (uponReceiving (js "a request for projects") new_GraphQLInteraction)
      with (Returned tt,
            after gql [Call_uponReceiving (js "a request for projects")]
                  new_GraphQLInteraction).
    cbv beta iota.
    change (given (js "i have a list of projects")
              (after gql [Call_uponReceiving (js "a request for projects")]
                     new_GraphQLInteraction))
      with (Returned tt,
            after gql [Call_uponReceiving (js "a request for projects");
                       Call_given (js "i have a list of projects")]
                  new_GraphQLInteraction).
    cbv beta iota.
    rewrite withQuery_unfold, Hq. reflexivity.
  - repeat split; vm_compute; reflexivity.
Qed.

End EndToEnd.

Lemma end_to_end_finalization_witness :
  exists r d,
    finalized_request
      (run (uponReceiving (js "a request for projects") ;;
            given (js "i have a list of projects") ;;
            withQuery brace_gql (Some (js "{ Category(id:7) { id name } }")) ;;
            withVariables ∅ ;;
            json)%method) = Some r /\
    r !! js "method" = Some (VStr (js "POST")) /\
    property2 r (js "body") (js "query") = Some (VObj d) /\
    d !! js "generate" = Some (VStr (js "{ Category(id:7) { id name } }")) /\
    d !! js "matcher"
    = Some (VStr (js "{\s+Category(id:7)\s+{\s+id\s+name\s+}\s+}")) /\
    accepts (js "{\s+Category(id:7)\s+{\s+id\s+name\s+}\s+}")
            (js "{Category(id:7){id name}}") = false.
Proof.
  destruct (end_to_end_finalization brace_gql eq_refl)
    as (r & d & Hr & Hm & _ & _ & _ & Hd & Hg & Hp & _ & _ & Hrej).
  exists r, d. repeat split; assumption.
Defined.

(** ** The properties at concrete calls *)

(** C8 as stated fails on a builder that has no query either: the query is
    checked first and [json] throws the missing-query error. *)
Lemma json_checks_query_first :
  thrown (run (given (js "i have a list of projects") ;; json)%method)
  = Some MissingQueryError /\
  message MissingQueryError <> message MissingDescriptionError.
Proof.
  split; [reflexivity|]. vm_compute. discriminate.
Qed.

Lemma missing_description_failure_witness :
  thrown (json (after brace_gql
                  [Call_given (js "i have a list of projects");
                   Call_withQuery (Some (js "{ Category(id:7) { id name } }"))]
                  new_GraphQLInteraction))
  = Some MissingDescriptionError.
Proof.
  rewrite (missing_description_failure brace_gql
             [Call_given (js "i have a list of projects");
              Call_withQuery (Some (js "{ Category(id:7) { id name } }"))]
             eq_refl).
  reflexivity.
Defined.

Lemma invalid_query_immediate_witness :
  run (uponReceiving (js "a request for projects") ;;
       withQuery brace_gql (Some (js "{ invalid")) ;;
       json)%method
  = (Thrown (mkError (js "GraphQL Query is invalid: Syntax Error: Expected Name, found <EOF>")),
     after brace_gql [Call_uponReceiving (js "a request for projects")]
           new_GraphQLInteraction).
Proof.
  destruct (invalid_query_immediate brace_gql (js "{ invalid")
              (js "Syntax Error: Expected Name, found <EOF>")
              (after brace_gql [Call_uponReceiving (js "a request for projects")]
                     new_GraphQLInteraction) eq_refl)
    as (_ & _ & Hchain).
  exact (Hchain _ json).
Defined.

Lemma mutators_atomic_witness :
  let this :=
    after brace_gql
      [Call_uponReceiving (js "a request for projects");
       Call_withOperation (Some (js "mutation"));
       Call_withVariables {[ js "id" := VNum 7 ]};
       Call_withQuery (Some (js "{ Category(id:7) { id name } }"))]
      new_GraphQLInteraction in
  snd (withOperation (Some (js "subscription")) this) = this /\
  snd (withQuery brace_gql (Some (js "{ invalid")) this) = this /\
  snd (withQuery brace_gql None this) = this.
Proof.
  intros this. split; [|split].
  - exact (proj1 (mutators_atomic brace_gql this _ InvalidOperationError)
             (Some (js "subscription")) eq_refl).
  - exact (proj2 (mutators_atomic brace_gql this _
                    (InvalidQueryError
                       (js "Syntax Error: Expected Name, found <EOF>")))
             (Some (js "{ invalid")) eq_refl).
  - exact (proj2 (mutators_atomic brace_gql this _ MissingQueryError)
             None eq_refl).
Defined.

Lemma json_frame_witness :
  let this :=
    after brace_gql
      [Call_uponReceiving (js "a request for projects");
       Call_given (js "i have a list of projects");
       Call_willRespondWith {[ js "status" := VNum 200 ]};
       Call_withQuery (Some (js "{ Category(id:7) { id name } }"))]
      new_GraphQLInteraction in
  exists st,
    returned (json this) = Some st /\
    description st = Some (js "a request for projects") /\
    stateDescription st = Some (js "i have a list of projects") /\
    response st = Some {[ js "status" := VNum 200 ]}.
Proof.
  intros this.
  destruct (json_frame this (snd (json this)) (state (snd (json this))) eq_refl)
    as (Hd & Hs & Hr & _).
  exists (state (snd (json this))).
  split; [reflexivity|]. split; [exact Hd|]. split; [exact Hs|exact Hr].
Defined.

(** ** Variables *)

(** [withVariables] replaces the stored variables wholesale: after two
    calls the builder holds the second mapping, and a [json] that returns
    on a builder whose accumulated request has no body of its own puts the
    stored mapping in the body's variables. *)
Theorem withVariables_replaces (a b : gmap (list N) value)
    (this : GraphQLInteraction) :
  variables (snd ((withVariables a ;; withVariables b)%method this)) = b /\
  (forall st this',
      json this = (Returned st, this') ->
      request_property this (js "body") = None ->
      exists r, request st = Some r /\
                property2 r (js "body") (js "variables")
                = Some (VObj (variables this))).
Proof.
  split; [reflexivity|].
  intros st this' Hj Hb.
  apply json_request in Hj as (q & r & Hq & Hr & Hk).
  exists r. split; [assumption|].
  unfold property2. rewrite Hk, Hb, derived_request_body. reflexivity.
Qed.

Lemma withVariables_replaces_witness :
  let this :=
    after brace_gql
      [Call_uponReceiving (js "a request for projects");
       Call_withQuery (Some (js "{ Category(id:7) { id name } }"));
       Call_withVariables {[ js "a" := VNum 1 ]};
       Call_withVariables {[ js "b" := VNum 2 ]}]
      new_GraphQLInteraction in
  exists r,
    finalized_request (json this) = Some r /\
    property2 r (js "body") (js "variables")
    = Some (VObj {[ js "b" := VNum 2 ]}).
Proof.
  intros this.
  destruct (withVariables_replaces ∅ ∅ this) as [_ Hjson].
  destruct (Hjson _ _ eq_refl eq_refl) as (r & Hr & Hv).
  exists r. split; [|exact Hv].
  exact (finalized_request_json this _ _ r eq_refl Hr).
Defined.

(** * Further properties *)

(** ** The derived pattern as a string *)

Lemma replace_ws_no_space_both (q : list N) :
  forallb (fun c => negb (is_space c)) (replace_ws q) = true /\
  forallb (fun c => negb (is_space c)) (replace_ws_in_match q) = true.
Proof.
  induction q as [|c q [IH1 IH2]]; [split; reflexivity|].
  simpl. destruct (is_space c) eqn:Hc.
  - split; [|exact IH2]. simpl. exact IH2.
  - simpl. rewrite Hc. simpl. split; exact IH1.
Qed.

Lemma replace_ws_fixed (s : list N) :
  forallb (fun c => negb (is_space c)) s = true -> replace_ws s = s.
Proof.
  induction s as [|c s IH]; [reflexivity|].
  simpl. intros H. apply andb_true_iff in H as [Hc Hs].
  apply negb_true_iff in Hc. rewrite Hc. f_equal. now apply IH.
Qed.

Lemma replace_ws_length_both (q : list N) :
  (length (replace_ws q) <= 3 * length q)%nat /\
  (length (replace_ws_in_match q) <= 3 * length q)%nat.
Proof.
  induction q as [|c q [IH1 IH2]]; [split; simpl; lia|].
  simpl. destruct (is_space c); simpl; lia.
Qed.

(** The pattern [json] derives from a query holds no whitespace character;
    deriving a pattern from it again changes nothing; a query without
    whitespace is its own pattern; and the pattern is at most three times
    as long as the query. *)
Theorem replace_ws_whitespace_free (q : list N) :
  forallb (fun c => negb (is_space c)) (replace_ws q) = true /\
  replace_ws (replace_ws q) = replace_ws q /\
  (forallb (fun c => negb (is_space c)) q = true -> replace_ws q = q) /\
  (length (replace_ws q) <= 3 * length q)%nat.
Proof.
  split; [apply replace_ws_no_space_both|].
  split; [apply replace_ws_fixed, replace_ws_no_space_both|].
  split; [apply replace_ws_fixed|apply replace_ws_length_both].
Qed.

(** ** Queries with the same pattern *)
Lemma Respaced_no_leading_space (q q' : list N) :
  Respaced q q' -> no_leading_space q = no_leading_space q'.
Proof.
  intros [|c q0 q0' Hc _|r r' q0 q0' Hne Hr Hne' Hr' _ _]; [reflexivity..|].
  destruct r as [|a r]; [congruence|]. destruct r' as [|a' r']; [congruence|].
  simpl in *. apply andb_true_iff in Hr as [-> _].
  apply andb_true_iff in Hr' as [-> _]. reflexivity.
Qed.

Lemma Respaced_same_pattern (q q' : list N) :
  Respaced q q' -> replace_ws q = replace_ws q'.
Proof.
  induction 1 as [|c q q' Hc _ IH|r r' q q' Hne Hr Hne' Hr' Hq H IH].
  - reflexivity.
  - rewrite !replace_ws_char by assumption. now f_equal.
  - assert (Hq' : no_leading_space q' = true)
      by (now rewrite <- (Respaced_no_leading_space q q' H)).
    rewrite !replace_ws_run by assumption. now f_equal.
Qed.

Lemma RunsReplaced_Respaced (q q' p : list N) :
  RunsReplaced q p -> RunsReplaced q' p ->
  ~ In 92%N q -> ~ In 92%N q' ->
  Respaced q q'.
Proof.
  intros H. revert q'.
  induction H as [|c q p Hc _ IH|r q p Hne Hr Hq _ IH]; intros q' H' Hb Hb'.
  - inversion H'; subst; constructor.
  - inversion H' as [|c' q0 p0 Hc' H0|r' q0 p0 Hne' Hr' Hq0 H0]; subst.
    + constructor; [assumption|]. apply IH; [assumption| |].
      * intros Hin. apply Hb. now right.
      * intros Hin. apply Hb'. now right.
    + exfalso. apply Hb. left. reflexivity.
  - inversion H' as [|c' q0 p0 Hc' H0|r' q0 p0 Hne' Hr' Hq0 H0]; subst.
    + exfalso. apply Hb'. left. reflexivity.
    + constructor; try assumption.
      apply IH; [assumption| |].
      * intros Hin. apply Hb. apply in_or_app. now right.
      * intros Hin. apply Hb'. apply in_or_app. now right.
Qed.

(** Two queries without backslashes get the same pattern from [json]
    exactly when one is the other with its runs of whitespace replaced by
    other non-empty runs. *)
Theorem same_pattern_iff_respaced (q q' : list N) :
  ~ In 92%N q -> ~ In 92%N q' ->
  (replace_ws q = replace_ws q' <-> Respaced q q').
Proof.
  intros Hb Hb'. split; [|apply Respaced_same_pattern].
  intros E. apply (RunsReplaced_Respaced q q' (replace_ws q)); try assumption.
  - apply replace_ws_RunsReplaced.
  - rewrite E. apply replace_ws_RunsReplaced.
Qed.

Lemma replace_ws_whitespace_free_witness :
  replace_ws (js "{Category(id:7){id}}") = js "{Category(id:7){id}}".
Proof.
  exact (proj1 (proj2 (proj2
           (replace_ws_whitespace_free (js "{Category(id:7){id}}")))) eq_refl).
Defined.

Lemma same_pattern_iff_respaced_witness :
  Respaced (js "{ id }")
           (js "{" ++ [10; 32; 32]%N ++ js "id" ++ [10]%N ++ js "}").
Proof.
  apply (proj1 (same_pattern_iff_respaced (js "{ id }")
                  (js "{" ++ [10; 32; 32]%N ++ js "id" ++ [10]%N ++ js "}")
                  ltac:(vm_compute; intuition discriminate)
                  ltac:(vm_compute; intuition discriminate))).
  reflexivity.
Defined.


(** ** The finalized request *)

Lemma derived_request_dom (this : GraphQLInteraction) (q : list N) :
  dom (derived_request this q) = derived_keys.
Proof.
  unfold derived_request, derived_keys.
  rewrite !dom_insert_L, dom_singleton_L. set_solver.
Qed.

Lemma extend_dom (dst : gmap (list N) value)
    (src : option (gmap (list N) value)) :
  dom (extend dst src) = dom (default ∅ src) ∪ dom dst.
Proof.
  destruct src as [s|]; simpl.
  - apply dom_union_L.
  - rewrite dom_empty_L. now rewrite (left_id_L ∅ (∪)).
Qed.

(** When [json] returns, the properties of the finalized request are those
    of the request the generic builder accumulated together with body,
    headers and method: the finalized request always has these three, and
    [json] adds and removes nothing else. *)
Theorem finalized_request_keys
    (this this' : GraphQLInteraction) (st : InteractionState) :
  json this = (Returned st, this') ->
  exists r,
    request st = Some r /\
    dom r = dom (default ∅ (request (state this))) ∪ derived_keys.
Proof.
  intros H. apply json_returns in H as (q & d & Hq & _ & -> & ->).
  eexists. split; [reflexivity|].
  now rewrite extend_dom, derived_request_dom.
Qed.

Lemma extend_absorbs (this : GraphQLInteraction) (q : list N)
    (r : gmap (list N) value) :
  derived_keys ⊆ dom r ->
  extend (derived_request this q) (Some r) = r.
Proof.
  intros Hsub. simpl. apply map_eq. intros k. rewrite lookup_union.
  destruct (r !! k) as [v|] eqn:Hk.
  - destruct (derived_request this q !! k); reflexivity.
  - assert (Hd : derived_request this q !! k = None).
    { apply not_elem_of_dom. rewrite derived_request_dom.
      intros Hin. apply Hsub in Hin. apply elem_of_dom in Hin as [v Hv].
      congruence. }
    rewrite Hd. reflexivity.
Qed.

Section Finalized.

Variable gql : list N -> parse_outcome.

Lemma perform_setter_state (c : call) (this : GraphQLInteraction) :
  is_graphql_setter c = true ->
  state (snd (perform gql c this)) = state this.
Proof.
  destruct c; try discriminate; intros _; simpl.
  - destruct (withOperation_cases operation' this) as [-> | ->]; reflexivity.
  - reflexivity.
  - destruct query' as [q|]; [|reflexivity].
    rewrite withQuery_unfold. destruct (gql q); reflexivity.
Qed.

Lemma after_setters_state (cs : list call) (this : GraphQLInteraction) :
  forallb is_graphql_setter cs = true ->
  state (after gql cs this) = state this.
Proof.
  revert this. induction cs as [|c cs IH]; intros this H; [reflexivity|].
  simpl in H. apply andb_true_iff in H as [Hc Hcs].
  unfold after in *. simpl. rewrite IH by assumption.
  now apply perform_setter_state.
Qed.

Lemma perform_query_stays (c : call) (this : GraphQLInteraction) :
  is_Some (query this) -> is_Some (query (snd (perform gql c this))).
Proof.
  intros Hq. destruct c; simpl; try assumption.
  - destruct (withOperation_cases operation' this) as [-> | ->]; assumption.
  - destruct query' as [q|]; [|assumption].
    rewrite withQuery_unfold. destruct (gql q); [eexists; reflexivity|assumption].
Qed.

Lemma after_query_stays (cs : list call) (this : GraphQLInteraction) :
  is_Some (query this) -> is_Some (query (after gql cs this)).
Proof.
  revert this. induction cs as [|c cs IH]; intros this H; [assumption|].
  unfold after in *. simpl. apply IH. now apply perform_query_stays.
Qed.

(** Finalization is kept: once [json] has returned, calls of
    [withOperation], [withVariables] and [withQuery] no longer reach the
    request.  A later [json] returns the same record again, with the body
    of the first finalization, and changes nothing: the request stored by
    the first [json] has a body, headers and a method, and those win over
    the ones derived anew. *)
Theorem json_refinalization
    (this this1 : GraphQLInteraction) (st : InteractionState) (cs : list call) :
  json this = (Returned st, this1) ->
  forallb is_graphql_setter cs = true ->
  json (after gql cs this1) = (Returned st, after gql cs this1).
Proof.
  intros Hj Hcs.
  apply json_returns in Hj as (q & d & Hq & Hd & -> & ->).
  set (r := extend (derived_request this q) (request (state this))).
  set (this1 := set_state_request r this).
  assert (Hsub : derived_keys ⊆ dom r).
  { unfold r. rewrite extend_dom, derived_request_dom.
    apply union_subseteq_r. }
  assert (Hst : state (after gql cs this1) = state this1)
    by (now apply after_setters_state).
  destruct (after_query_stays cs this1) as [q' Hq'].
  { exists q. exact Hq. }
  rewrite json_unfold, Hq', Hst.
  change (description (state this1)) with (description (state this)).
  rewrite Hd. cbv zeta.
  change (request (state this1)) with (Some r).
  rewrite (extend_absorbs _ _ r Hsub).
  assert (E : set_state_request r (after gql cs this1) = after gql cs this1).
  { destruct (after gql cs this1) as [s o v qq]. simpl in Hst. subst s.
    reflexivity. }
  rewrite E, Hst. reflexivity.
Qed.

(** ** Each field has its own setter *)

Lemma perform_query_congr (c : call) (b1 b2 : GraphQLInteraction) :
  query b1 = query b2 ->
  query (snd (perform gql c b1)) = query (snd (perform gql c b2)).
Proof.
  intros E. destruct c; simpl; try assumption.
  - destruct (withOperation_cases operation' b1) as [-> | ->],
             (withOperation_cases operation' b2) as [-> | ->]; assumption.
  - destruct query' as [q|]; [|assumption].
    rewrite !withQuery_unfold. destruct (gql q); [reflexivity|assumption].
Qed.

Lemma perform_operation_congr (c : call) (b1 b2 : GraphQLInteraction) :
  operation b1 = operation b2 ->
  operation (snd (perform gql c b1)) = operation (snd (perform gql c b2)).
Proof.
  intros E. destruct c; simpl; try assumption.
  - destruct (withOperation_cases operation' b1) as [E1 | E1],
             (withOperation_cases operation' b2) as [E2 | E2];
      rewrite E1, E2; try assumption; try reflexivity.
    + exfalso. unfold withOperation in E1, E2.
      destruct (negb (truthy operation') || _); discriminate.
    + exfalso. unfold withOperation in E1, E2.
      destruct (negb (truthy operation') || _); discriminate.
  - destruct query' as [q|]; [|assumption].
    rewrite !withQuery_unfold. destruct (gql q); assumption.
Qed.

Lemma perform_variables_congr (c : call) (b1 b2 : GraphQLInteraction) :
  variables b1 = variables b2 ->
  variables (snd (perform gql c b1)) = variables (snd (perform gql c b2)).
Proof.
  intros E. destruct c; simpl; try assumption; try reflexivity.
  - destruct (withOperation_cases operation' b1) as [-> | ->],
             (withOperation_cases operation' b2) as [-> | ->]; assumption.
  - destruct query' as [q|]; [|assumption].
    rewrite !withQuery_unfold. destruct (gql q); assumption.
Qed.

Lemma perform_other_operation (c : call) (this : GraphQLInteraction) :
  is_withOperation c = false ->
  operation (snd (perform gql c this)) = operation this.
Proof.
  destruct c; try discriminate; intros _; try reflexivity.
  simpl. destruct query' as [q|]; [|reflexivity].
  rewrite withQuery_unfold. destruct (gql q); reflexivity.
Qed.

Lemma perform_other_variables (c : call) (this : GraphQLInteraction) :
  is_withVariables c = false ->
  variables (snd (perform gql c this)) = variables this.
Proof.
  destruct c; try discriminate; intros _; try reflexivity.
  - simpl. destruct (withOperation_cases operation' this) as [-> | ->];
      reflexivity.
  - simpl. destruct query' as [q|]; [|reflexivity].
    rewrite withQuery_unfold. destruct (gql q); reflexivity.
Qed.

(** A field of the builder after the calls is its value after the calls
    of one kind alone, when the other calls leave the field alone and a
    call's effect on the field depends on the field only. *)
Lemma after_filter {F : Type} (field : GraphQLInteraction -> F)
    (mine : call -> bool) :
  (forall c b, mine c = false -> field (snd (perform gql c b)) = field b) ->
  (forall c b1 b2, field b1 = field b2 ->
     field (snd (perform gql c b1)) = field (snd (perform gql c b2))) ->
  forall cs b1 b2, field b1 = field b2 ->
    field (after gql cs b1) = field (after gql (List.filter mine cs) b2).
Proof.
  intros Hother Hcongr cs.
  induction cs as [|c cs IH]; intros b1 b2 E; [exact E|].
  unfold after in *. simpl. destruct (mine c) eqn:Hc; simpl.
  - apply IH. now apply Hcongr.
  - apply IH. now rewrite Hother.
Qed.

(** The stored operation, variables and query after any calls are what the
    calls of [withOperation], of [withVariables] and of [withQuery] alone
    leave, in the order they were made: no call changes the field of
    another setter, and whether a setter throws does not depend on the
    builder.  So calls of different setters can be made in any order.  The
    three setters leave the state of the generic builder (description,
    provider state, request, response) as it is. *)
Theorem setters_independent (cs : list call) (this : GraphQLInteraction) :
  operation (after gql cs this)
  = operation (after gql (List.filter is_withOperation cs) this) /\
  variables (after gql cs this)
  = variables (after gql (List.filter is_withVariables cs) this) /\
  query (after gql cs this)
  = query (after gql (List.filter is_withQuery cs) this) /\
  state (after gql (List.filter is_graphql_setter cs) this) = state this.
Proof.
  split; [|split; [|split]].
  - apply (after_filter operation is_withOperation); auto using
      perform_other_operation, perform_operation_congr.
  - apply (after_filter variables is_withVariables); auto using
      perform_other_variables, perform_variables_congr.
  - apply (after_filter query is_withQuery); auto using
      perform_keeps_query, perform_query_congr.
  - apply after_setters_state. apply forallb_forall.
    intros c Hc. now apply filter_In in Hc.
Qed.

(** ** The query that is in force *)

Lemma perform_query (c : call) (this : GraphQLInteraction) :
  query (snd (perform gql c this))
  = match accepted_query gql c with
    | Some q => Some q
    | None => query this
    end.
Proof.
  destruct c; simpl; try reflexivity.
  - destruct (withOperation_cases operation' this) as [-> | ->]; reflexivity.
  - destruct query' as [q|]; [|reflexivity].
    rewrite withQuery_unfold. destruct (gql q); reflexivity.
Qed.

Lemma after_query (cs : list call) (this : GraphQLInteraction) :
  query (after gql cs this)
  = match last_accepted_query gql cs with
    | Some q => Some q
    | None => query this
    end.
Proof.
  revert this. induction cs as [|c cs IH]; intros this; [reflexivity|].
  unfold after in *. simpl. rewrite IH, perform_query.
  destruct (last_accepted_query gql cs); reflexivity.
Qed.

(** The query of a builder is the argument of the last [withQuery] call
    that passed the parser: calls with [null] or with a string the parser
    rejects neither clear nor replace it.  When no call passed, [json]
    throws the missing-query error; when one did and [json] returns on a
    builder whose accumulated request has no body of its own, the
    descriptor in the body is the one of that query. *)
Theorem last_accepted_query_in_force (cs : list call) :
  query (after gql cs new_GraphQLInteraction) = last_accepted_query gql cs /\
  (last_accepted_query gql cs = None ->
   json (after gql cs new_GraphQLInteraction)
   = (Thrown MissingQueryError, after gql cs new_GraphQLInteraction)) /\
  (forall q st this',
     json (after gql cs new_GraphQLInteraction) = (Returned st, this') ->
     last_accepted_query gql cs = Some q ->
     request_property (after gql cs new_GraphQLInteraction) (js "body") = None ->
     exists r, request st = Some r /\
       property2 r (js "body") (js "query") = Some (regex q (replace_ws q))).
Proof.
  assert (Hq : query (after gql cs new_GraphQLInteraction)
               = last_accepted_query gql cs).
  { rewrite after_query. destruct (last_accepted_query gql cs); reflexivity. }
  split; [exact Hq|]. split.
  - intros Hn. rewrite json_unfold, Hq, Hn. reflexivity.
  - intros q st this' Hj Hl Hb.
    apply json_request in Hj as (q' & r & Hq' & Hr & Hk).
    rewrite Hq, Hl in Hq'. injection Hq' as <-.
    exists r. split; [assumption|].
    unfold property2. rewrite Hk, Hb, derived_request_body. reflexivity.
Qed.

(** ** What a builder can hold *)

Lemma withOperation_returns (op : option (list N))
    (this this' : GraphQLInteraction) :
  withOperation op this = (Returned tt, this') ->
  In op (map Some (keys GraphQLOperations)).
Proof.
  intros H.
  destruct (decide (op ∈ map Some (keys GraphQLOperations))) as [Hin|Hout].
  - now apply list_elem_of_In.
  - rewrite (withOperation_invalid op this) in H; [discriminate|].
    intros Hin. apply Hout. now apply list_elem_of_In.
Qed.

Lemma perform_operation_valid (c : call) (this : GraphQLInteraction) :
  In (operation this) (None :: map Some (keys GraphQLOperations)) ->
  In (operation (snd (perform gql c this)))
     (None :: map Some (keys GraphQLOperations)).
Proof.
  intros H. destruct c; simpl perform; try assumption.
  - destruct (withOperation_cases operation' this) as [E|E]; rewrite E;
      [|assumption].
    right. exact (withOperation_returns _ _ _ E).
  - destruct query' as [q|]; [|assumption].
    rewrite withQuery_unfold. destruct (gql q); assumption.
Qed.

Lemma last_accepted_query_parsed (cs : list call) (q : list N) :
  last_accepted_query gql cs = Some q -> gql q = Parsed.
Proof.
  induction cs as [|c cs IH]; [discriminate|]. simpl.
  destruct (last_accepted_query gql cs) as [q'|].
  - intros H. injection H as <-. now apply IH.
  - destruct c as [| | | | | |[s|]]; try discriminate. simpl.
    destruct (gql s) eqn:Hs; [|discriminate].
    intros H. injection H as <-. exact Hs.
Qed.

(** Whatever calls were made on a fresh builder, its operation is [null],
    [query] or [mutation], and its query, when it has one, is a string the
    parser accepts. *)
Theorem builder_invariant (cs : list call) :
  In (operation (after gql cs new_GraphQLInteraction))
     [None; Some (js "query"); Some (js "mutation")] /\
  (forall q, query (after gql cs new_GraphQLInteraction) = Some q ->
             gql q = Parsed).
Proof.
  split.
  - assert (H : forall b,
               In (operation b) (None :: map Some (keys GraphQLOperations)) ->
               In (operation (after gql cs b))
                  (None :: map Some (keys GraphQLOperations))).
    { induction cs as [|c cs IH]; intros b Hb; [exact Hb|].
      unfold after in *. simpl. apply IH. now apply perform_operation_valid. }
    apply (H new_GraphQLInteraction). now left.
  - intros q Hq. rewrite after_query in Hq.
    destruct (last_accepted_query gql cs) as [q'|] eqn:Hl; [|discriminate].
    injection Hq as <-. exact (last_accepted_query_parsed cs q' Hl).
Qed.

End Finalized.

Lemma finalized_request_keys_witness :
  let this :=
    after brace_gql
      [Call_uponReceiving (js "a request for projects");
       Call_withRequest {[ js "path" := VStr (js "/graphql");
                           js "method" := VStr (js "POST") ]};
       Call_withQuery (Some (js "{ Category(id:7) { id name } }"))]
      new_GraphQLInteraction in
  exists r,
    finalized_request (json this) = Some r /\
    dom r = {[ js "body"; js "headers"; js "method"; js "path" ]}.
Proof.
  intros this.
  destruct (finalized_request_keys this _ _ eq_refl) as (r & Hr & Hdom).
  exists r. split; [exact (finalized_request_json this _ _ r eq_refl Hr)|].
  rewrite Hdom. vm_compute. reflexivity.
Defined.

Lemma json_refinalization_witness :
  let q1 := js "{ Category(id:7) { id name } }" in
  let this :=
    after brace_gql
      [Call_uponReceiving (js "a request for projects");
       Call_withQuery (Some q1)]
      new_GraphQLInteraction in
  let later :=
    after brace_gql
      [Call_withQuery (Some (js "{ Category(id:8) { id } }"));
       Call_withOperation (Some (js "query"));
       Call_withVariables {[ js "id" := VNum 8 ]}]
      (snd (json this)) in
  query later = Some (js "{ Category(id:8) { id } }") /\
  exists r,
    finalized_request (json later) = Some r /\
    property2 r (js "body") (js "query") = Some (regex q1 (replace_ws q1)) /\
    property2 r (js "body") (js "operationName") = Some VNull.
Proof.
  intros q1 this later. split; [reflexivity|].
  pose proof (json_refinalization brace_gql this (snd (json this))
                (state (snd (json this)))
                [Call_withQuery (Some (js "{ Category(id:8) { id } }"));
                 Call_withOperation (Some (js "query"));
                 Call_withVariables {[ js "id" := VNum 8 ]}]
                eq_refl eq_refl) as H.
  fold later in H.
  exists (extend (derived_request this q1) (request (state this))).
  split.
  - exact (finalized_request_json later _ _ _ H eq_refl).
  - split; reflexivity.
Defined.

Lemma last_accepted_query_in_force_witness :
  let cs :=
    [Call_uponReceiving (js "a request for projects");
     Call_withQuery (Some (js "{ Category(id:7) { id name } }"));
     Call_withQuery (Some (js "{ invalid"));
     Call_withQuery None] in
  exists r,
    finalized_request (json (after brace_gql cs new_GraphQLInteraction))
    = Some r /\
    property2 r (js "body") (js "query")
    = Some (regex (js "{ Category(id:7) { id name } }")
                  (js "{\s+Category(id:7)\s+{\s+id\s+name\s+}\s+}")).
Proof.
  intros cs.
  destruct (last_accepted_query_in_force brace_gql cs) as (_ & _ & Hjson).
  destruct (Hjson (js "{ Category(id:7) { id name } }") _ _
              eq_refl eq_refl eq_refl) as (r & Hr & Hq).
  exists r. split; [|exact Hq].
  exact (finalized_request_json (after brace_gql cs new_GraphQLInteraction)
           _ _ r eq_refl Hr).
Defined.

Lemma builder_invariant_witness :
  let cs :=
    [Call_withOperation (Some (js "subscription"));
     Call_withOperation (Some (js "mutation"));
     Call_withOperation None;
     Call_withQuery (Some (js "{ Category(id:7) { id name } }"));
     Call_withQuery (Some (js "{ invalid"))] in
  In (operation (after brace_gql cs new_GraphQLInteraction))
     [None; Some (js "query"); Some (js "mutation")] /\
  brace_gql (js "{ Category(id:7) { id name } }") = Parsed.
Proof.
  intros cs.
  destruct (builder_invariant brace_gql cs) as [Hop Hq].
  split; [exact Hop|exact (Hq _ eq_refl)].
Defined.


(** ** A descriptor and its own example *)

Lemma read_pattern_step (c : N) (p : list N) :
  read_pattern (c :: p)
  = if (c =? 92)%N && starts_s_plus p
    then PSpaces :: read_pattern (skipn 2 p)
    else PChar c :: read_pattern p.
Proof.
  cbn [read_pattern]. destruct p as [|a [|b p]].
  - N_cases c.
  - N_cases c. N_cases a.
  - N_cases c. N_cases a. N_cases b.
Qed.

Lemma contains_ws_class_step (c : N) (q : list N) :
  contains_ws_class (c :: q)
  = (c =? 92)%N && starts_s_plus q || contains_ws_class q.
Proof.
  cbn [contains_ws_class]. destruct q as [|a [|b q]].
  - N_cases c.
  - N_cases c. N_cases a.
  - N_cases c. N_cases a. N_cases b.
Qed.

Lemma is_space_s_plus (c : N) :
  is_space c = true -> (c =? 92)%N = false /\ (c =? 115)%N = false /\ (c =? 43)%N = false.
Proof.
  intros H. repeat split; apply N.eqb_neq; intros ->; discriminate H.
Qed.

Lemma starts_s_plus_replace_ws (q : list N) :
  starts_s_plus (replace_ws q) = starts_s_plus q /\
  (starts_s_plus q = true ->
   skipn 2 (replace_ws q) = replace_ws (skipn 2 q)).
Proof.
  destruct q as [|a q]; [split; [reflexivity|discriminate]|].
  cbn [replace_ws]. destruct (is_space a) eqn:Ha.
  - apply is_space_s_plus in Ha as (_ & Ha & _).
    split.
    + destruct q as [|b q]; simpl; [reflexivity|]. now rewrite Ha.
    + destruct q as [|b q]; simpl; [discriminate|]. rewrite Ha. discriminate.
  - destruct q as [|b q]; [split; [reflexivity|discriminate]|].
    cbn [replace_ws]. destruct (is_space b) eqn:Hb.
    + apply is_space_s_plus in Hb as (_ & _ & Hb).
      split; simpl; rewrite Hb, andb_false_r; [reflexivity|discriminate].
    + split; reflexivity.
Qed.

Lemma strip_ws_cons (c : N) (q : list N) :
  strip_ws (c :: q) = if is_space c then strip_ws q else c :: strip_ws q.
Proof.
  unfold strip_ws. rewrite filter_cons.
  destruct (is_space c); case_decide; congruence.
Qed.

Lemma contains_ws_class_space (c : N) (q : list N) :
  is_space c = true -> contains_ws_class (c :: q) = contains_ws_class q.
Proof.
  intros Hc. rewrite contains_ws_class_step.
  apply is_space_s_plus in Hc as (-> & _). reflexivity.
Qed.

(** Inside a match the scan is the scan for the next match on the string
    without its leading whitespace. *)
Lemma replace_ws_in_match_drop (q : list N) :
  exists q',
    replace_ws_in_match q = replace_ws q' /\
    (length q' <= length q)%nat /\
    strip_ws q' = strip_ws q /\
    contains_ws_class q' = contains_ws_class q.
Proof.
  induction q as [|c q (q' & E & Hl & Hs & Hc)].
  - exists []. repeat split; reflexivity || lia.
  - destruct (is_space c) eqn:Hsp.
    + exists q'. rewrite strip_ws_cons, Hsp, (contains_ws_class_space c q Hsp).
      cbn [replace_ws_in_match replace_ws length]. rewrite Hsp.
      repeat split; try assumption. lia.
    + exists (c :: q). cbn [replace_ws_in_match replace_ws]. rewrite Hsp.
      repeat split; reflexivity || lia.
Qed.

Lemma literal_items_bound (n : nat) (q : list N) :
  (length q <= n)%nat ->
  (literal_items (read_pattern (replace_ws q)) <= length (strip_ws q))%nat /\
  (contains_ws_class q = true ->
   (literal_items (read_pattern (replace_ws q)) < length (strip_ws q))%nat).
Proof.
  revert q. induction n as [|n IH]; intros q Hn.
  { destruct q; [|simpl in Hn; lia]. split; [reflexivity|discriminate]. }
  destruct q as [|c q]; [split; [reflexivity|discriminate]|].
  simpl in Hn. cbn [replace_ws]. rewrite strip_ws_cons.
  destruct (is_space c) eqn:Hsp.
  - rewrite (contains_ws_class_space c q Hsp).
    destruct (replace_ws_in_match_drop q) as (q' & -> & Hl & <- & <-).
    rewrite read_pattern_ws_class. cbn [literal_items]. apply IH. lia.
  - rewrite read_pattern_step, contains_ws_class_step.
    destruct (starts_s_plus_replace_ws q) as [-> Hskip].
    destruct ((c =? 92)%N && starts_s_plus q) eqn:Hcls.
    + apply andb_true_iff in Hcls as [_ Hsq].
      rewrite (Hskip Hsq). cbn [literal_items].
      destruct q as [|a [|b q]]; try discriminate Hsq.
      simpl in Hsq. apply andb_true_iff in Hsq as [Ha Hb].
      apply N.eqb_eq in Ha, Hb. subst a b.
      change (skipn 2 (115%N :: 43%N :: q)) with q.
      rewrite !strip_ws_cons.
      change (is_space 115) with false. change (is_space 43) with false.
      simpl in Hn. destruct (IH q ltac:(lia)) as [Hle _].
      cbn [length]. split; [lia|intros _; lia].
    + cbn [literal_items length]. simpl orb.
      destruct (IH q ltac:(lia)) as [Hle Hlt].
      split; [lia|]. intros Hc. specialize (Hlt Hc). lia.
Qed.

Lemma accepts_items_literals (items : list pattern_item) (s : list N) :
  accepts_items items s = true ->
  (length (strip_ws s) <= literal_items items)%nat.
Proof.
  revert s. induction items as [|[c|] items IH]; intros s H.
  - destruct s; [reflexivity|discriminate].
  - destruct s as [|x s]; [discriminate|]. cbn [accepts_items] in H.
    apply andb_true_iff in H as [_ H]. apply IH in H.
    rewrite strip_ws_cons. cbn [literal_items].
    destruct (is_space x); cbn [length]; lia.
  - destruct s as [|x s]; [discriminate|]. cbn [accepts_items] in H.
    apply andb_true_iff in H as [Hx H].
    rewrite strip_ws_cons, Hx. cbn [literal_items].
    induction s as [|y s IHs].
    + apply orb_true_iff in H as [H|H]; [now apply IH in H|discriminate].
    + apply orb_true_iff in H as [H|H]; [now apply IH in H|].
      apply andb_true_iff in H as [Hy H].
      rewrite strip_ws_cons, Hy. now apply IHs.
Qed.

Lemma Respaced_refl (q : list N) :
  Respaced q q /\
  (forall r, r <> [] -> forallb is_space r = true -> Respaced (r ++ q) (r ++ q)).
Proof.
  induction q as [|c q [IH1 IH2]].
  - split; [constructor|]. intros r Hne Hr. apply RS_run; auto. constructor.
  - destruct (is_space c) eqn:Hc.
    + split.
      * apply (IH2 [c]); [discriminate|]. simpl. now rewrite Hc.
      * intros r Hne Hr.
        replace (r ++ c :: q) with ((r ++ [c]) ++ q)
          by (rewrite <- app_assoc; reflexivity).
        apply IH2.
        -- destruct r; discriminate.
        -- rewrite forallb_app, Hr. simpl. now rewrite Hc.
    + assert (Hcq : Respaced (c :: q) (c :: q)) by (now constructor).
      split; [exact Hcq|].
      intros r Hne Hr. apply RS_run; auto. simpl. now rewrite Hc.
Qed.

Lemma contains_ws_class_app (r q : list N) :
  contains_ws_class (r ++ q) = false -> contains_ws_class q = false.
Proof.
  induction r as [|c r IH]; [auto|]. simpl app.
  rewrite contains_ws_class_step. intros H.
  apply orb_false_iff in H as [_ H]. auto.
Qed.

Lemma accepts_respaced (q q' : list N) :
  contains_ws_class q = false ->
  Respaced q q' ->
  accepts (replace_ws q) q' = true.
Proof.
  intros Hb H. unfold accepts.
  induction H as [|c q q' Hc _ IH|r r' q q' Hne Hr Hne' Hr' Hq _ IH].
  - reflexivity.
  - rewrite replace_ws_char by assumption.
    rewrite contains_ws_class_step in Hb.
    apply orb_false_iff in Hb as [Hcls Hb].
    rewrite read_pattern_step.
    destruct (starts_s_plus_replace_ws q) as [-> _]. rewrite Hcls.
    cbn [accepts_items]. rewrite N.eqb_refl. simpl. now apply IH.
  - rewrite replace_ws_run by assumption.
    rewrite read_pattern_ws_class.
    apply accepts_items_spaces; try assumption.
    apply IH. now apply contains_ws_class_app in Hb.
Qed.

(** Read as the specification reads patterns, the matcher of the descriptor
    [json] builds accepts the descriptor's own example, the query as it was
    given, exactly when the query does not hold the text of the whitespace
    class itself (backslash, s, plus, in a row). *)
Theorem descriptor_accepts_its_example (q : list N) :
  accepts (replace_ws q) q = negb (contains_ws_class q).
Proof.
  destruct (contains_ws_class q) eqn:Hc; simpl.
  - apply not_true_is_false. intros H.
    apply accepts_items_literals in H.
    destruct (literal_items_bound (length q) q (le_n _)) as [_ Hlt].
    specialize (Hlt Hc). lia.
  - apply accepts_respaced; [assumption|apply Respaced_refl].
Qed.

(** ** Missing query *)

Section MissingQuery.

Variable gql : list N -> parse_outcome.

Lemma json_missing_query_iff (this : GraphQLInteraction) :
  thrown (json this) = Some MissingQueryError <-> query this = None.
Proof.
  rewrite json_unfold. unfold thrown.
  destruct (query this) as [q|]; [|split; reflexivity].
  destruct (description (state this)); simpl; split; try discriminate;
    intros H; vm_compute in H; discriminate H.
Qed.

Lemma last_accepted_query_none (cs : list call) :
  Forall (fun c => accepted_query gql c = None) cs ->
  last_accepted_query gql cs = None.
Proof.
  induction 1 as [|c cs Hc _ IH]; [reflexivity|].
  simpl. now rewrite IH.
Qed.

Lemma accepted_query_other (c : call) :
  is_withQuery c = false -> accepted_query gql c = None.
Proof. destruct c; try discriminate; reflexivity. Qed.

(** C3, as the code has it.  [withQuery(null)] throws the missing-query
    error at the call.  The empty string is handed to the parser like any
    other string: when the parser rejects it the call throws the
    invalid-query error with the parser's message, which is not the
    missing-query error, and when the parser accepts it the string is
    stored.  [json] throws the missing-query error exactly when the builder
    holds no query, and then leaves the builder as it was: after any calls
    on a fresh builder, exactly when none of them was a [withQuery] that
    passed the parser.  That is so when [withQuery] was never called,
    whatever the other calls set, and when it was only called with [null]
    or, for a parser that rejects it, with the empty string. *)
Theorem missing_query_failures :
  (forall this, withQuery gql None this = (Thrown MissingQueryError, this)) /\
  (forall this,
      withQuery gql (Some []) this =
      match gql [] with
      | Parsed => (Returned tt, set_query (Some []) this)
      | SyntaxError msg => (Thrown (InvalidQueryError msg), this)
      end) /\
  (forall msg, message (InvalidQueryError msg) <> message MissingQueryError) /\
  (forall this,
      thrown (json this) = Some MissingQueryError <-> query this = None) /\
  (forall this,
      query this = None -> json this = (Thrown MissingQueryError, this)) /\
  (forall cs,
      thrown (json (after gql cs new_GraphQLInteraction))
      = Some MissingQueryError
      <-> last_accepted_query gql cs = None) /\
  (forall cs,
      existsb is_withQuery cs = false ->
      json (after gql cs new_GraphQLInteraction)
      = (Thrown MissingQueryError, after gql cs new_GraphQLInteraction)) /\
  (forall cs,
      gql [] <> Parsed ->
      Forall (fun c => is_withQuery c = false \/ c = Call_withQuery None
                       \/ c = Call_withQuery (Some [])) cs ->
      json (after gql cs new_GraphQLInteraction)
      = (Thrown MissingQueryError, after gql cs new_GraphQLInteraction)).
Proof.
  assert (Hnone : forall this,
             query this = None -> json this = (Thrown MissingQueryError, this)).
  { intros this H. rewrite json_unfold, H. reflexivity. }
  assert (Hq : forall cs,
             query (after gql cs new_GraphQLInteraction)
             = last_accepted_query gql cs).
  { intros cs. rewrite after_query.
    destruct (last_accepted_query gql cs); reflexivity. }
  split; [exact (withQuery_nil gql)|].
  split; [intros this; apply withQuery_unfold|].
  split; [intros msg H; cbv in H; discriminate H|].
  split; [exact json_missing_query_iff|].
  split; [exact Hnone|].
  split; [|split].
  - intros cs. rewrite json_missing_query_iff, Hq. reflexivity.
  - intros cs H. apply Hnone. rewrite Hq. apply last_accepted_query_none.
    apply List.Forall_forall. intros c Hc. apply accepted_query_other.
    destruct (is_withQuery c) eqn:E; [|reflexivity].
    rewrite <- H. symmetry. apply existsb_exists. eauto.
  - intros cs Hempty H. apply Hnone. rewrite Hq.
    apply last_accepted_query_none.
    eapply Forall_impl; [exact H|]. intros c [Hc | [-> | ->]].
    + now apply accepted_query_other.
    + reflexivity.
    + simpl. destruct (gql []); [congruence|reflexivity].
Qed.

End MissingQuery.

(** C3 as stated fails at [withQuery] of the empty string.  In a chain the
    call throws the invalid-query error and [json] is not reached; and
    where a query was accepted before, neither the empty string nor [null]
    makes a later [json] fail: the earlier query stays. *)
Lemma empty_query_is_not_missing :
  thrown (run (uponReceiving (js "a request for projects") ;;
               withQuery brace_gql (Some []) ;;
               json)%method)
  = Some (InvalidQueryError (js "Syntax Error: Unexpected <EOF>")) /\
  message (InvalidQueryError (js "Syntax Error: Unexpected <EOF>"))
  <> message MissingQueryError /\
  exists st,
    returned
      (json (after brace_gql
               [Call_uponReceiving (js "a request for projects");
                Call_withQuery (Some (js "{ Category(id:7) { id name } }"));
                Call_withQuery (Some []);
                Call_withQuery None]
               new_GraphQLInteraction)) = Some st.
Proof.
  split; [reflexivity|]. split; [vm_compute; discriminate|].
  eexists. vm_compute. reflexivity.
Qed.

Lemma missing_query_failures_witness :
  let cs :=
    [Call_uponReceiving (js "a request for projects");
     Call_given (js "i have a list of projects");
     Call_withOperation (Some (js "query"));
     Call_withVariables {[ js "id" := VNum 7 ]};
     Call_willRespondWith {[ js "status" := VNum 200 ]};
     Call_withQuery (Some []);
     Call_withQuery None] in
  thrown (withQuery brace_gql (Some []) new_GraphQLInteraction)
  = Some (InvalidQueryError (js "Syntax Error: Unexpected <EOF>")) /\
  thrown (withQuery brace_gql None new_GraphQLInteraction)
  = Some MissingQueryError /\
  thrown (json (after brace_gql cs new_GraphQLInteraction))
  = Some MissingQueryError.
Proof.
  intros cs.
  destruct (missing_query_failures brace_gql)
    as (Hnil & Hempty & _ & _ & _ & _ & _ & Hfailed).
  split; [|split].
  - rewrite Hempty. reflexivity.
  - rewrite Hnil. reflexivity.
  - rewrite (Hfailed cs).
    + reflexivity.
    + discriminate.
    + unfold cs.
      repeat (apply List.Forall_cons;
              [first [left; reflexivity
                     |right; left; reflexivity
                     |right; right; reflexivity]|]).
      apply List.Forall_nil.
Defined.

(** C4 as stated fails where the accumulated request has a body of its own:
    the finalized body is the caller's and its query field is not the
    descriptor; and after a first [json] the body of that finalization
    stays, so the query field is the descriptor of the earlier query. *)
Lemma caller_body_hides_descriptor :
  (exists r,
     finalized_request
       (run (withRequest
               {[ js "body" := VObj {[ js "query" := VStr (js "{ other }") ]} ]} ;;
             uponReceiving (js "a request for projects") ;;
             withQuery brace_gql (Some (js "{ Category(id:7) { id name } }")) ;;
             json)%method) = Some r /\
     property2 r (js "body") (js "query") = Some (VStr (js "{ other }"))) /\
  (let this :=
     after brace_gql
       [Call_uponReceiving (js "a request for projects");
        Call_withQuery (Some (js "{ Category(id:7) { id name } }"))]
       new_GraphQLInteraction in
   let later :=
     after brace_gql
       [Call_withQuery (Some (js "{ Category(id:8) { id } }"))]
       (snd (json this)) in
   query later = Some (js "{ Category(id:8) { id } }") /\
   exists r,
     finalized_request (json later) = Some r /\
     property2 r (js "body") (js "query")
     = Some (regex (js "{ Category(id:7) { id name } }")
                   (js "{\s+Category(id:7)\s+{\s+id\s+name\s+}\s+}"))).
Proof.
  split.
  - eexists. split; vm_compute; reflexivity.
  - split; [reflexivity|].
    eexists. split; vm_compute; reflexivity.
Qed.
